(** * esky.fstransact: best-effort transactional filesystem operations

    A shallow embedding of [src/esky/fstransact.py] (Python 2): the file
    comparator [files_differ], the fallback ("deferred") [FSTransaction]
    that queues operations and replays them at commit, and the
    [FSTransaction] built on the Windows transaction manager ("native").

    The operating system is modelled as a finite map from paths to nodes
    together with a fault oracle that makes individual system calls fail;
    Python exceptions are an error result that keeps the state reached so
    far. *)

From stdpp Require Import gmap strings list fin_maps.
From Stdlib.Strings Require Import Byte.
From Equations Require Import Equations.
From Equations.Prop Require Import Logic.

Set Default Proof Using "Type".

(** ** Exceptions and the state-and-exception monad *)

Inductive errno : Set :=
| ENOENT | EEXIST | EACCES | EISDIR | ENOTDIR | EIO | ESAMEFILE.

(** [EnvironmentError] stands for the whole Python 2 family ([OSError],
    [IOError], [WindowsError], [shutil.Error]); the other two are not
    caught by [except EnvironmentError]. *)
Inductive exn : Set :=
| EnvironmentError (e : errno) (p : string)
| NameError (name : string)
| AttributeError (name : string).

Inductive result (A : Type) : Type :=
| Ok (a : A)
| Raise (e : exn).
Arguments Ok {A} a.
Arguments Raise {A} e.

Definition is_EnvironmentError (e : exn) : bool :=
  match e with EnvironmentError _ _ => true | _ => false end.

(** A computation over a state [S]: an exception leaves the state as it
    was when the exception was raised. *)
Definition M (S A : Type) : Type := S -> result A * S.

Definition ret {S A} (a : A) : M S A := fun s => (Ok a, s).

Definition raise {S A} (e : exn) : M S A := fun s => (Raise e, s).

Definition bind {S A B} (m : M S A) (k : A -> M S B) : M S B :=
  fun s => match m s with
           | (Ok a, s') => k a s'
           | (Raise e, s') => (Raise e, s')
           end.

#[global] Instance M_ret {S} : MRet (M S) := fun A => @ret S A.
#[global] Instance M_bind {S} : MBind (M S) := fun A B k m => @bind S A B m k.

(** [try: body / except: handler e] (a bare [except:], catching all). *)
Definition try_except {S A} (body : M S A) (handler : exn -> M S A) : M S A :=
  fun s => match body s with
           | (Ok a, s') => (Ok a, s')
           | (Raise e, s') => handler e s'
           end.

(** [try: body / except EnvironmentError: handler]. *)
Definition try_except_env {S A} (body : M S A) (handler : M S A) : M S A :=
  try_except body
    (fun e => if is_EnvironmentError e then handler else raise e).

(** [try: body / except: handler; raise / else: orelse]. *)
Definition try_except_reraise_else {S A} (body : M S unit)
    (handler : M S unit) (orelse : M S A) : M S A :=
  fun s => match body s with
           | (Ok _, s') => orelse s'
           | (Raise e, s') => (handler ;; raise e) s'
           end.

(** [try: body / finally: fin]. *)
Definition try_finally {S A} (body : M S A) (fin : M S unit) : M S A :=
  fun s => match body s with
           | (Ok a, s') => (fin ;; ret a) s'
           | (Raise e, s') => (fin ;; raise e) s'
           end.

Definition gets {S A} (f : S -> A) : M S A := fun s => (Ok (f s), s).

Definition modify {S} (f : S -> S) : M S unit := fun s => (Ok tt, f s).

Definition lift_result {S A} (r : result A) : M S A := fun s => (r, s).

(** ** The file system *)

(** A regular file holds its bytes; a directory is a leaf whose entries
    are not tracked, with the size [os.stat] reports for it. *)
Inductive node : Type :=
| File (data : list byte)
| Dir (dir_size : nat).

#[global] Instance byte_eq_dec : EqDecision byte := Byte.byte_eq_dec.
#[global] Instance node_eq_dec : EqDecision node.
Proof. solve_decision. Defined.

(** The system calls a fault can be injected into. *)
Inductive syscall : Set :=
| SysStat (p : string)
| SysOpen (p : string)
| SysRead (p : string)
| SysCreate (p : string)
| SysWrite (p : string)
| SysRename (src dst : string)
| SysUnlink (p : string)
| SysRmdir (p : string).

#[global] Instance syscall_eq_dec : EqDecision syscall.
Proof. solve_decision. Defined.

(** What the program is run against: [sys.platform], the injected
    faults, and the path handling that is left to the platform
    ([sys.getfilesystemencoding] and, for [shutil.copy2] into a
    directory, [os.path.join (dst, os.path.basename src)]). *)
Record env : Type := {
  sys_platform : string;
  fault : syscall -> bool;
  fsencode : string -> string;
  join_basename : string -> string -> string
}.

Definition is_win32 (E : env) : bool := String.eqb (sys_platform E) "win32".

Record stat_result : Set := { st_isdir : bool; st_size : nat }.

Definition stat_of (n : node) : stat_result :=
  match n with
  | File data => {| st_isdir := false; st_size := length data |}
  | Dir sz => {| st_isdir := true; st_size := sz |}
  end.

Definition os_stat (E : env) (p : string) : M (gmap string node) stat_result :=
  fun m =>
    if fault E (SysStat p) then (Raise (EnvironmentError EACCES p), m)
    else match m !! p with
         | None => (Raise (EnvironmentError ENOENT p), m)
         | Some n => (Ok (stat_of n), m)
         end.

(** [os.path.exists], [os.path.isfile], [os.path.isdir]: [os.stat] with
    every error turned into [False]. *)
Definition os_path_exists (E : env) (p : string) (m : gmap string node) : bool :=
  match os_stat E p m with (Ok _, _) => true | _ => false end.

Definition os_path_isfile (E : env) (p : string) (m : gmap string node) : bool :=
  match os_stat E p m with (Ok st, _) => negb (st_isdir st) | _ => false end.

Definition os_path_isdir (E : env) (p : string) (m : gmap string node) : bool :=
  match os_stat E p m with (Ok st, _) => st_isdir st | _ => false end.

(** [os.rename]: on Windows it fails when the destination exists, even
    if it is a file; elsewhere it replaces a file by a file (and a
    directory by a directory) in one step. *)
Definition os_rename (E : env) (src dst : string) : M (gmap string node) unit :=
  fun m =>
    if fault E (SysRename src dst) then (Raise (EnvironmentError EACCES src), m)
    else match m !! src with
         | None => (Raise (EnvironmentError ENOENT src), m)
         | Some n =>
           if decide (src = dst) then (Ok tt, m)
           else match m !! dst with
                | None => (Ok tt, <[dst := n]> (delete src m))
                | Some d =>
                  if is_win32 E then (Raise (EnvironmentError EEXIST dst), m)
                  else match n, d with
                       | File _, Dir _ => (Raise (EnvironmentError EISDIR dst), m)
                       | Dir _, File _ => (Raise (EnvironmentError ENOTDIR dst), m)
                       | _, _ => (Ok tt, <[dst := n]> (delete src m))
                       end
                end
         end.

Definition os_unlink (E : env) (p : string) : M (gmap string node) unit :=
  fun m =>
    if fault E (SysUnlink p) then (Raise (EnvironmentError EACCES p), m)
    else match m !! p with
         | None => (Raise (EnvironmentError ENOENT p), m)
         | Some (Dir _) => (Raise (EnvironmentError EISDIR p), m)
         | Some (File _) => (Ok tt, delete p m)
         end.

Definition os_rmdir (E : env) (p : string) : M (gmap string node) unit :=
  fun m =>
    if fault E (SysRmdir p) then (Raise (EnvironmentError EACCES p), m)
    else match m !! p with
         | None => (Raise (EnvironmentError ENOENT p), m)
         | Some (File _) => (Raise (EnvironmentError ENOTDIR p), m)
         | Some (Dir _) => (Ok tt, delete p m)
         end.

(** An open file object: its path and the bytes not yet read. *)
Record handle : Type := { h_path : string; h_rest : list byte }.

(** [open(p, "rb")]. *)
Definition py_open (E : env) (p : string) : M (gmap string node) handle :=
  fun m =>
    if fault E (SysOpen p) then (Raise (EnvironmentError EACCES p), m)
    else match m !! p with
         | None => (Raise (EnvironmentError ENOENT p), m)
         | Some (Dir _) => (Raise (EnvironmentError EISDIR p), m)
         | Some (File data) => (Ok {| h_path := p; h_rest := data |}, m)
         end.

(** [f.read(n)]: at most [n] bytes, the file object moves on. *)
Definition f_read (E : env) (n : nat) (f : handle) : result (list byte * handle) :=
  if fault E (SysRead (h_path f)) then Raise (EnvironmentError EIO (h_path f))
  else Ok (take n (h_rest f), {| h_path := h_path f; h_rest := drop n (h_rest f) |}).

(** [f.close()] leaves the file system as it is. *)
Definition f_close {S} (f : handle) : M S unit := ret tt.

(** [shutil.copy2]: [copyfile] followed by [copystat]; file metadata is
    not part of the model, so [copystat] has nothing to do. *)
Definition shutil_copyfile (E : env) (src dst : string) : M (gmap string node) unit :=
  fun m =>
    if bool_decide (src = dst) && (is_win32 E || os_path_exists E src m)
    then (Raise (EnvironmentError ESAMEFILE src), m)
    else if fault E (SysOpen src) then (Raise (EnvironmentError EACCES src), m)
    else match m !! src with
         | None => (Raise (EnvironmentError ENOENT src), m)
         | Some (Dir _) => (Raise (EnvironmentError EISDIR src), m)
         | Some (File data) =>
           if fault E (SysCreate dst) then (Raise (EnvironmentError EACCES dst), m)
           else match m !! dst with
                | Some (Dir _) => (Raise (EnvironmentError EISDIR dst), m)
                | _ =>
                  if fault E (SysRead src)
                  then (Raise (EnvironmentError EIO src), <[dst := File []]> m)
                  else if fault E (SysWrite dst)
                  then (Raise (EnvironmentError EIO dst), <[dst := File []]> m)
                  else (Ok tt, <[dst := File data]> m)
                end
         end.

Definition shutil_copy2 (E : env) (src dst : string) : M (gmap string node) unit :=
  fun m =>
    let dst' := if os_path_isdir E dst m then join_basename E dst src else dst in
    shutil_copyfile E src dst' m.

(** ** [files_differ] *)

Definition CHUNK : nat := 1024 * 256.

Definition nonempty (data : list byte) : bool :=
  match data with [] => false | _ :: _ => true end.

(** The [while data1 and data2] loop, entered with the two chunks just
    read. Every turn consumes the non-empty chunk [data1], so the bytes
    of [f1] still to be compared get fewer. *)
Equations? compare_chunks (E : env) (f1 f2 : handle) (data1 data2 : list byte)
    : result bool by wf (length data1 + length (h_rest f1)) lt :=
  compare_chunks E f1 f2 data1 data2 with inspect (nonempty data1 && nonempty data2) => {
    | exist _ false _ => Ok (negb (bool_decide (data1 = data2)));
    | exist _ true Hgo with negb (bool_decide (data1 = data2)) => {
      | true => Ok true;
      | false with inspect (f_read E CHUNK f1) => {
        | exist _ (Raise e) _ => Raise e;
        | exist _ (Ok (data1', f1')) Hrd1 with f_read E CHUNK f2 => {
          | Raise e => Raise e;
          | Ok (data2', f2') => compare_chunks E f1' f2' data1' data2' } } } }.
Proof.
  unfold f_read in Hrd1. destruct (fault E _); [done|].
  injection Hrd1 as <- <-. simpl.
  destruct data1; [done|]. simpl. rewrite length_take, length_drop. lia.
Qed.

(** The two first reads and the loop. The file objects are local to
    [files_differ], so only the verdict (or the error) leaves. *)
Definition read_and_compare (E : env) (f1 f2 : handle) : result bool :=
  match f_read E CHUNK f1 with
  | Raise e => Raise e
  | Ok (data1, f1') =>
    match f_read E CHUNK f2 with
    | Raise e => Raise e
    | Ok (data2, f2') => compare_chunks E f1' f2' data1 data2
    end
  end.

Definition files_differ (E : env) (file1 file2 : string)
    : M (gmap string node) bool :=
  stats ← try_except_env
            (stat1 ← os_stat E file1;
             stat2 ← os_stat E file2;
             ret (Some (stat1, stat2)))
            (ret None);
  match stats with
  | None => ret true
  | Some (stat1, stat2) =>
    if negb (st_size stat1 =? st_size stat2) then ret true
    else
      f1 ← py_open E file1;
      try_finally
        (f2 ← py_open E file2;
         try_finally (lift_result (read_and_compare E f1 f2)) (f_close f2))
        (f_close f1)
  end.

(** ** The fallback [FSTransaction]: queue now, apply at commit *)

(** An entry of [self.pending]: the tuples [("_move", source, target)],
    [("_copy", source, target)] and [("_remove", target)]. *)
Inductive op : Set :=
| Op_move (source target : string)
| Op_copy (source target : string)
| Op_remove (target : string).

Module Deferred.

(** The transaction object and the file system it works on. *)
Record state : Type := { pending : list op; files : gmap string node }.

Definition on_files {A} (m : M (gmap string node) A) : M state A :=
  fun s => let '(r, m') := m (files s) in
           (r, {| pending := pending s; files := m' |}).

Definition pending_append (o : op) : M state unit :=
  modify (fun s => {| pending := pending s ++ [o]; files := files s |}).

Definition init (m : gmap string node) : state :=
  {| pending := []; files := m |}.

Definition remove (target : string) : M state unit :=
  pending_append (Op_remove target).

Definition move (E : env) (source target : string) : M state unit :=
  differ ← on_files (files_differ E source target);
  if differ : bool then pending_append (Op_move source target)
  else remove source.

Definition copy (E : env) (source target : string) : M state unit :=
  differ ← on_files (files_differ E source target);
  if differ : bool then pending_append (Op_copy source target)
  else ret tt.

Definition _move (E : env) (source target : string)
    : M (gmap string node) unit :=
  target_exists ← gets (os_path_exists E target);
  if is_win32 E && target_exists then
    os_rename E target (target +:+ ".old");;
    try_except_reraise_else
      (os_rename E source target)
      (os_rename E (target +:+ ".old") target)
      (try_except_env (os_unlink E (target +:+ ".old")) (ret tt))
  else os_rename E source target.

Definition _copy (E : env) (source target : string)
    : M (gmap string node) unit :=
  target_exists ← gets (os_path_exists E target);
  if is_win32 E && target_exists then
    os_rename E target (target +:+ ".old");;
    try_except_reraise_else
      (shutil_copy2 E source target)
      (os_rename E (target +:+ ".old") target)
      (try_except_env (os_unlink E (target +:+ ".old")) (ret tt))
  else shutil_copy2 E source target.

Definition _remove (E : env) (target : string) : M (gmap string node) unit :=
  isfile ← gets (os_path_isfile E target);
  if isfile : bool then os_unlink E target else os_rmdir E target.

(** One turn of the loop in [commit]: the method named by the entry's
    first component, called on the rest of the entry. *)
Definition apply_op (E : env) (o : op) : M (gmap string node) unit :=
  match o with
  | Op_move source target => _move E source target
  | Op_copy source target => _copy E source target
  | Op_remove target => _remove E target
  end.

Fixpoint apply_all (E : env) (ops : list op) : M (gmap string node) unit :=
  match ops with
  | [] => ret tt
  | o :: rest => apply_op E o;; apply_all E rest
  end.

Definition commit (E : env) : M state unit :=
  ops ← gets pending;
  on_files (apply_all E ops).

Definition abort : M state unit :=
  modify (fun s => {| pending := []; files := files s |}).

End Deferred.

(** ** The [FSTransaction] on the Windows transaction manager *)

(** The names bound at module level when the transacted API was found;
    Python's builtins hold no further name used below. *)
Definition module_globals : list string :=
  [ "sys"; "shutil"; "os"; "CreateTransaction"; "ctypes"; "ktmw32";
    "CommitTransaction"; "RollbackTransaction"; "kernel32";
    "MoveFileTransacted"; "CopyFileTransacted"; "DeleteFileTransacted";
    "RemoveDirectoryTransacted"; "files_differ"; "FSTransaction" ].

(** A call into [ktmw32]/[kernel32], all on the handle [self.trnid]. *)
Inductive tcall : Set :=
| MoveFileTransacted (src dst : string)
| CopyFileTransacted (src dst : string)
| DeleteFileTransacted (p : string)
| RemoveDirectoryTransacted (p : string)
| CommitTransaction
| RollbackTransaction.

Module Native.

(** The calls issued on the transaction so far, and the file system as
    calls outside the transaction ([os.stat], [open]) see it. The
    [ctypes] functions report failure through their return value, which
    the methods ignore, so a call never raises. *)
Record state : Type := { trace : list tcall; files : gmap string node }.

Definition init (m : gmap string node) : state :=
  {| trace := []; files := m |}.

Definition on_files {A} (m : M (gmap string node) A) : M state A :=
  fun s => let '(r, m') := m (files s) in
           (r, {| trace := trace s; files := m' |}).

Definition ktm (c : tcall) : M state unit :=
  modify (fun s => {| trace := trace s ++ [c]; files := files s |}).

(** Reading the path-valued variable [name] inside a method whose local
    names are [locals]: a module-level name is no string and has no
    [encode]; a name bound nowhere is a [NameError]. *)
Definition load_name (locals : list (string * string)) (name : string)
    : M state string :=
  match list_find (fun kv => kv.1 = name) locals with
  | Some (_, (_, v)) => ret v
  | None =>
    if bool_decide (name ∈ module_globals) then raise (AttributeError "encode")
    else raise (NameError name)
  end.

Definition remove (E : env) (target : string) : M state unit :=
  source ← load_name [("target", target)] "source";
  let tgtenc := fsencode E source in
  isdir ← gets (fun s => os_path_isdir E target (files s));
  if isdir : bool then ktm (RemoveDirectoryTransacted tgtenc)
  else ktm (DeleteFileTransacted tgtenc).

Definition move (E : env) (source target : string) : M state unit :=
  differ ← on_files (files_differ E source target);
  (if negb differ then remove E source else ret tt);;
  let srcenc := fsencode E source in
  let tgtenc := fsencode E source in
  target_exists ← gets (fun s => os_path_exists E target (files s));
  if target_exists : bool then
    ktm (MoveFileTransacted tgtenc (tgtenc +:+ ".old"));;
    ktm (MoveFileTransacted srcenc tgtenc);;
    try_except_env (ktm (DeleteFileTransacted (tgtenc +:+ ".old"))) (ret tt)
  else ktm (MoveFileTransacted srcenc tgtenc).

Definition copy (E : env) (source target : string) : M state unit :=
  differ ← on_files (files_differ E source target);
  if negb differ then ret tt
  else
    let srcenc := fsencode E source in
    let tgtenc := fsencode E source in
    target_exists ← gets (fun s => os_path_exists E target (files s));
    if target_exists : bool then
      ktm (MoveFileTransacted tgtenc (tgtenc +:+ ".old"));;
      ktm (CopyFileTransacted srcenc tgtenc);;
      try_except_env (ktm (DeleteFileTransacted (tgtenc +:+ ".old"))) (ret tt)
    else ktm (CopyFileTransacted srcenc tgtenc).

Definition commit : M state unit := ktm CommitTransaction.

Definition abort : M state unit := ktm RollbackTransaction.

End Native.

(** ** Concrete environments and files used in the examples *)

Definition no_fault : syscall -> bool := fun _ => false.

Definition posix : env :=
  {| sys_platform := "linux2"; fault := no_fault; fsencode := id;
     join_basename := fun d s => d +:+ "/" +:+ s |}.

Definition win32 : env :=
  {| sys_platform := "win32"; fault := no_fault; fsencode := id;
     join_basename := fun d s => d +:+ "\" +:+ s |}.

Definition with_fault (E : env) (f : syscall -> bool) : env :=
  {| sys_platform := sys_platform E; fault := f; fsencode := fsencode E;
     join_basename := join_basename E |}.

Definition bytes (s : string) : list byte := String.list_byte_of_string s.

(** The environment [E] with a fault injected into the system call [c]
    and nowhere else. *)
Definition failing (E : env) (c : syscall) : env :=
  with_fault E (fun c' => bool_decide (c' = c)).

Definition fs_twins : gmap string node :=
  {[ "a" := File (bytes "hello"); "b" := File (bytes "hello") ]}.

Definition fs_src_tgt : gmap string node :=
  {[ "s" := File (bytes "new"); "t" := File (bytes "old") ]}.

Definition fs_tgt : gmap string node :=
  {[ "t" := File (bytes "old") ]}.

(** ** Notions used to state the properties *)

(** A file exists for the comparator when it is a regular file that can
    be stat'ed, opened and read. *)
Definition readable_file (E : env) (m : gmap string node) (p : string)
    (data : list byte) : Prop :=
  m !! p = Some (File data) ∧ fault E (SysStat p) = false ∧
  fault E (SysOpen p) = false ∧ fault E (SysRead p) = false.

(** What a caller can ask of the fallback transaction before it commits
    or aborts. *)
Inductive api_call : Set :=
| Call_move (source target : string)
| Call_copy (source target : string)
| Call_remove (target : string).

Definition do_call (E : env) (c : api_call) : M Deferred.state unit :=
  match c with
  | Call_move source target => Deferred.move E source target
  | Call_copy source target => Deferred.copy E source target
  | Call_remove target => Deferred.remove target
  end.

(** A caller that makes the calls one after the other and goes on when
    one of them raises. *)
Fixpoint do_calls (E : env) (cs : list api_call) (s : Deferred.state)
    : Deferred.state :=
  match cs with
  | [] => s
  | c :: rest => do_calls E rest (do_call E c s).2
  end.

(** No system call is made to fail. *)
Definition fault_free (E : env) : Prop := ∀ c, fault E c = false.


(** What a caller can ask of the transaction on the Windows transaction
    manager. *)
Inductive native_call : Set :=
| NCall_move (source target : string)
| NCall_copy (source target : string)
| NCall_remove (target : string)
| NCall_commit
| NCall_abort.

Definition do_native_call (E : env) (c : native_call) : M Native.state unit :=
  match c with
  | NCall_move source target => Native.move E source target
  | NCall_copy source target => Native.copy E source target
  | NCall_remove target => Native.remove E target
  | NCall_commit => Native.commit
  | NCall_abort => Native.abort
  end.

Fixpoint do_native_calls (E : env) (cs : list native_call) (s : Native.state)
    : Native.state :=
  match cs with
  | [] => s
  | c :: rest => do_native_calls E rest (do_native_call E c s).2
  end.

(** * Properties *)

(** ** Tactics and basic facts *)

Ltac munfold :=
  repeat progress
    (unfold mbind, mret, M_bind, M_ret, bind, ret, raise, try_except_env,
       try_except, try_finally, try_except_reraise_else, gets, modify,
       lift_result, f_close in *; simpl in * ).

Ltac break_matches := repeat (case_match; simplify_eq/=; try done).

Ltac by_computation := vm_compute; repeat split; reflexivity.

Lemma CHUNK_pos : 0 < CHUNK.
Proof. unfold CHUNK. lia. Qed.

Opaque CHUNK.

Lemma string_length_app (a b : string) :
  String.length (a +:+ b) = String.length a + String.length b.
Proof. induction a as [|c a IH]; simpl; [done|]. by rewrite IH. Qed.

Lemma path_old_ne (t : string) : t ≠ t +:+ ".old".
Proof.
  intros Heq. apply (f_equal String.length) in Heq.
  rewrite string_length_app in Heq. simpl in Heq. lia.
Qed.

(** ** The comparator *)

(** One turn of the loop, as the source writes it. *)
Lemma compare_chunks_step E f1 f2 data1 data2 :
  compare_chunks E f1 f2 data1 data2 =
    if nonempty data1 && nonempty data2 then
      if negb (bool_decide (data1 = data2)) then Ok true
      else match f_read E CHUNK f1 with
           | Raise e => Raise e
           | Ok (data1', f1') =>
             match f_read E CHUNK f2 with
             | Raise e => Raise e
             | Ok (data2', f2') => compare_chunks E f1' f2' data1' data2'
             end
           end
    else Ok (negb (bool_decide (data1 = data2))).
Proof.
  funelim (compare_chunks E f1 f2 data1 data2); clear Heqcall;
    repeat match goal with
           | H : _ = {| pr1 := _; pr2 := _ |} |- _ => clear H
           end;
    repeat match goal with
           | H : @eq bool _ _ |- _ => rewrite H; clear H
           | H : f_read _ _ _ = _ |- _ => rewrite H; clear H
           end; done.
Qed.

(** Comparing two byte strings chunk by chunk decides their equality. *)
Lemma compare_chunks_aligned E p1 p2 (t1 t2 : list byte) :
  fault E (SysRead p1) = false → fault E (SysRead p2) = false →
  compare_chunks E {| h_path := p1; h_rest := drop CHUNK t1 |}
                   {| h_path := p2; h_rest := drop CHUNK t2 |}
                   (take CHUNK t1) (take CHUNK t2)
  = Ok (negb (bool_decide (t1 = t2))).
Proof.
  intros Hr1 Hr2. pose proof CHUNK_pos as Hc.
  remember (length t1) as n eqn:Hn. revert t1 t2 Hn.
  induction n as [n IH] using lt_wf_ind. intros t1 t2 ->.
  rewrite compare_chunks_step.
  destruct (nonempty (take CHUNK t1) && nonempty (take CHUNK t2)) eqn:Hgo.
  - apply andb_true_iff in Hgo as [Hn1 Hn2].
    case_bool_decide as Hd; simpl.
    + unfold f_read; simpl. rewrite Hr1, Hr2.
      destruct t1 as [|b t1]; [by destruct CHUNK|].
      erewrite IH; [..|reflexivity].
      * f_equal. f_equal. apply bool_decide_ext.
        split; [intros Hdr|by intros ->].
        rewrite <- (take_drop CHUNK (b :: t1)), <- (take_drop CHUNK t2).
        by rewrite Hd, Hdr.
      * rewrite length_drop. simpl. lia.
    + f_equal. symmetry. apply negb_true_iff, bool_decide_eq_false.
      by intros ->.
  - f_equal. f_equal. apply bool_decide_ext.
    split; [|by intros ->]. intros Hd.
    apply andb_false_iff in Hgo as [Hgo|Hgo].
    + destruct t1 as [|b t1]; [|destruct CHUNK; [lia|done]].
      destruct t2 as [|b t2]; [done|]. destruct CHUNK; [lia|done].
    + destruct t2 as [|b t2]; [|destruct CHUNK; [lia|done]].
      destruct t1 as [|b t1]; [done|]. destruct CHUNK; [lia|done].
Qed.

Lemma read_and_compare_eval E p1 p2 (d1 d2 : list byte) :
  read_and_compare E {| h_path := p1; h_rest := d1 |}
                     {| h_path := p2; h_rest := d2 |}
  = if fault E (SysRead p1) then Raise (EnvironmentError EIO p1)
    else if fault E (SysRead p2) then Raise (EnvironmentError EIO p2)
    else Ok (negb (bool_decide (d1 = d2))).
Proof.
  unfold read_and_compare, f_read; simpl.
  destruct (fault E (SysRead p1)) eqn:H1; [done|].
  destruct (fault E (SysRead p2)) eqn:H2; [done|].
  by apply compare_chunks_aligned.
Qed.

(** The decisions of [files_differ], in the order it takes them. *)
Lemma files_differ_unfold E file1 file2 m :
  files_differ E file1 file2 m =
    if fault E (SysStat file1) then (Ok true, m) else
    match m !! file1 with
    | None => (Ok true, m)
    | Some n1 =>
      if fault E (SysStat file2) then (Ok true, m) else
      match m !! file2 with
      | None => (Ok true, m)
      | Some n2 =>
        if negb (st_size (stat_of n1) =? st_size (stat_of n2)) then (Ok true, m)
        else if fault E (SysOpen file1)
        then (Raise (EnvironmentError EACCES file1), m)
        else match n1 with
             | Dir _ => (Raise (EnvironmentError EISDIR file1), m)
             | File d1 =>
               if fault E (SysOpen file2)
               then (Raise (EnvironmentError EACCES file2), m)
               else match n2 with
                    | Dir _ => (Raise (EnvironmentError EISDIR file2), m)
                    | File d2 =>
                      (read_and_compare E {| h_path := file1; h_rest := d1 |}
                                          {| h_path := file2; h_rest := d2 |}, m)
                    end
             end
      end
    end.
Proof.
  unfold files_differ, os_stat, py_open. munfold.
  break_matches; congruence.
Qed.

(** [files_differ] leaves the file system as it found it. *)
Lemma files_differ_pure E file1 file2 m : (files_differ E file1 file2 m).2 = m.
Proof. rewrite files_differ_unfold. break_matches. Qed.

(** On two files that can be read, the verdict is that of comparing
    their bytes. *)
Lemma files_differ_readable E file1 file2 m d1 d2 :
  readable_file E m file1 d1 → readable_file E m file2 d2 →
  files_differ E file1 file2 m = (Ok (negb (bool_decide (d1 = d2))), m).
Proof.
  intros (Hm1 & Hs1 & Ho1 & Hr1) (Hm2 & Hs2 & Ho2 & Hr2).
  rewrite files_differ_unfold, Hs1, Hm1, Hs2, Hm2. simpl.
  destruct (length d1 =? length d2) eqn:Hlen; simpl.
  - by rewrite Ho1, Ho2, read_and_compare_eval, Hr1, Hr2.
  - apply Nat.eqb_neq in Hlen. rewrite bool_decide_eq_false_2; [done|].
    by intros ->.
Qed.






(** The same without any injected fault: an empty file against a
    directory that [os.stat] reports with size 0. *)
Lemma files_differ_directory_raises :
  files_differ posix "a" "d" {[ "a" := File []; "d" := Dir 0 ]}
  = (Raise (EnvironmentError EISDIR "d"), {[ "a" := File []; "d" := Dir 0 ]}).
Proof. by_computation. Qed.

(** ** The system calls *)

Lemma os_rename_raise E src dst m e m' :
  os_rename E src dst m = (Raise e, m') → m' = m.
Proof. unfold os_rename. intros H. break_matches. Qed.


Lemma shutil_copy2_ok_inv E src dst m m' :
  shutil_copy2 E src dst m = (Ok tt, m') → os_path_isdir E dst m = false →
  ∃ d, m !! src = Some (File d) ∧ m' = <[dst := File d]> m.
Proof.
  unfold shutil_copy2. intros H Hd. rewrite Hd in H.
  unfold shutil_copyfile in H. break_matches; eauto.
Qed.

(** The clean-up [try: os.unlink(p) / except EnvironmentError: pass]
    always returns; it removes [p] when it can. *)
Lemma unlink_best_effort E p (m : gmap string node) :
  try_except_env (os_unlink E p) (ret tt) m
  = (Ok tt, if fault E (SysUnlink p) then m
            else match m !! p with
                 | Some (File _) => delete p m
                 | _ => m
                 end).
Proof. unfold os_unlink. munfold. break_matches. Qed.

Lemma reraise_else_ok {S A} (body handler : M S unit) (orelse : M S A) s a s' :
  try_except_reraise_else body handler orelse s = (Ok a, s') →
  ∃ s1, body s = (Ok tt, s1) ∧ orelse s1 = (Ok a, s').
Proof.
  unfold try_except_reraise_else. munfold. intros H.
  destruct (body s) as [[[]|e] s1]; [eauto|].
  destruct (handler s1) as [[[]|e'] s2]; done.
Qed.

(** On Windows a successful backup rename moves the node of [t] to the
    name [t.old], which was free. *)
Lemma backup_rename_ok E t m m1 :
  is_win32 E = true →
  os_rename E t (t +:+ ".old") m = (Ok tt, m1) →
  ∃ n, m !! t = Some n ∧ m !! (t +:+ ".old") = None ∧
       m1 = <[t +:+ ".old" := n]> (delete t m).
Proof.
  unfold os_rename. intros Hw H. pose proof (path_old_ne t).
  break_matches. eauto.
Qed.

Lemma backup_restore (m : gmap string node) t n :
  m !! t = Some n → m !! (t +:+ ".old") = None →
  <[t := n]> (delete (t +:+ ".old") (<[t +:+ ".old" := n]> (delete t m))) = m.
Proof.
  intros Ht Hold. pose proof (path_old_ne t).
  apply map_eq. intros i.
  destruct (decide (i = t)) as [->|Hi]; [by rewrite lookup_insert_eq|].
  rewrite lookup_insert_ne by done.
  destruct (decide (i = t +:+ ".old")) as [->|Hi']; [by rewrite lookup_delete_eq|].
  by rewrite lookup_delete_ne, lookup_insert_ne, lookup_delete_ne.
Qed.

Lemma restore_rename_ok E t (m : gmap string node) n :
  fault E (SysRename (t +:+ ".old") t) = false →
  m !! t = Some n → m !! (t +:+ ".old") = None →
  os_rename E (t +:+ ".old") t (<[t +:+ ".old" := n]> (delete t m)) = (Ok tt, m).
Proof.
  intros Hf Ht Hold. pose proof (path_old_ne t). unfold os_rename.
  rewrite Hf, lookup_insert_eq. rewrite decide_False by done.
  rewrite lookup_insert_ne, lookup_delete_eq by done.
  by rewrite backup_restore.
Qed.

(** ** The replace protocol of [_move] and [_copy] *)

Lemma _move_unfold E source target m :
  Deferred._move E source target m =
    if is_win32 E && os_path_exists E target m then
      match os_rename E target (target +:+ ".old") m with
      | (Ok _, m1) =>
        try_except_reraise_else
          (os_rename E source target)
          (os_rename E (target +:+ ".old") target)
          (try_except_env (os_unlink E (target +:+ ".old")) (ret tt)) m1
      | (Raise e, m1) => (Raise e, m1)
      end
    else os_rename E source target m.
Proof.
  unfold Deferred._move, mbind, M_bind, bind, gets.
  by destruct (is_win32 E && os_path_exists E target m).
Qed.

Lemma _copy_unfold E source target m :
  Deferred._copy E source target m =
    if is_win32 E && os_path_exists E target m then
      match os_rename E target (target +:+ ".old") m with
      | (Ok _, m1) =>
        try_except_reraise_else
          (shutil_copy2 E source target)
          (os_rename E (target +:+ ".old") target)
          (try_except_env (os_unlink E (target +:+ ".old")) (ret tt)) m1
      | (Raise e, m1) => (Raise e, m1)
      end
    else shutil_copy2 E source target m.
Proof.
  unfold Deferred._copy, mbind, M_bind, bind, gets.
  by destruct (is_win32 E && os_path_exists E target m).
Qed.




(** A failure of the copy after it has created the target: on win32 the
    restoring rename finds the target in its way, elsewhere there is no
    backup to restore. *)
Lemma copy_write_fault_win32 :
  Deferred._copy (failing win32 (SysWrite "t")) "s" "t" fs_src_tgt
  = (Raise (EnvironmentError EEXIST "t"),
     {[ "s" := File (bytes "new"); "t" := File [];
        "t.old" := File (bytes "old") ]}).
Proof. by_computation. Qed.

Lemma copy_write_fault_posix :
  Deferred._copy (failing posix (SysWrite "t")) "s" "t" fs_src_tgt
  = (Raise (EnvironmentError EIO "t"),
     {[ "s" := File (bytes "new"); "t" := File [] ]}).
Proof. by_computation. Qed.

(** Off win32 no backup is made: a failing rename leaves the file system
    as it was, a [.old] file of its own included. *)
Lemma move_fails_posix E source target m e :
  is_win32 E = false →
  (Deferred._move E source target m).1 = Raise e →
  Deferred._move E source target m = (Raise e, m).
Proof.
  intros Hw. rewrite _move_unfold, Hw. simpl.
  destruct (os_rename E source target m) as [r m'] eqn:Hr. simpl. intros ->.
  by rewrite (os_rename_raise _ _ _ _ _ _ Hr).
Qed.




(** Off win32 nothing looks at [target.old]: one that was there before
    a successful move is there after it. *)
Lemma move_keeps_foreign_old_posix :
  Deferred._move posix "s" "t" (<["t.old" := File (bytes "x")]> fs_src_tgt)
  = (Ok tt, {[ "t" := File (bytes "new"); "t.old" := File (bytes "x") ]}).
Proof. by_computation. Qed.

(** ** The fallback transaction: enqueue, commit, abort *)

Lemma apply_all_app E pre post m :
  Deferred.apply_all E (pre ++ post) m =
    match Deferred.apply_all E pre m with
    | (Ok _, m1) => Deferred.apply_all E post m1
    | (Raise e, m1) => (Raise e, m1)
    end.
Proof.
  revert m. induction pre as [|o pre IH]; intros m; simpl; [done|].
  munfold. destruct (Deferred.apply_op E o m) as [[[]|e] m1]; [|done].
  apply IH.
Qed.

Lemma commit_unfold E s :
  Deferred.commit E s =
    ((Deferred.apply_all E (Deferred.pending s) (Deferred.files s)).1,
     {| Deferred.pending := Deferred.pending s;
        Deferred.files :=
          (Deferred.apply_all E (Deferred.pending s) (Deferred.files s)).2 |}).
Proof.
  unfold Deferred.commit, Deferred.on_files. munfold.
  by destruct (Deferred.apply_all E _ _) as [[[]|e] m1].
Qed.

(** C4, as the code has it. [commit] leaves the queue as it is, whether
    or not every operation succeeds. When the operations before [o]
    succeed and [o] fails, [commit] raises the error of [o]; the
    operations after [o] are not applied and what the earlier ones (and
    [o] itself) did to the file system stays. *)
Theorem commit_partial_failure E s :
  Deferred.pending (Deferred.commit E s).2 = Deferred.pending s ∧
  ∀ pre o post m1 e m2,
    Deferred.pending s = pre ++ o :: post →
    Deferred.apply_all E pre (Deferred.files s) = (Ok tt, m1) →
    Deferred.apply_op E o m1 = (Raise e, m2) →
    Deferred.commit E s
    = (Raise e, {| Deferred.pending := Deferred.pending s;
                   Deferred.files := m2 |}).
Proof.
  rewrite commit_unfold. split; [done|].
  intros pre o post m1 e m2 -> Hpre Ho.
  rewrite apply_all_app, Hpre. simpl. munfold. by rewrite Ho.
Qed.

Lemma commit_partial_failure_witness :
  Deferred.commit posix
    {| Deferred.pending := [Op_remove "a"; Op_remove "c"; Op_remove "b"];
       Deferred.files := fs_twins |}
  = (Raise (EnvironmentError ENOENT "c"),
     {| Deferred.pending := [Op_remove "a"; Op_remove "c"; Op_remove "b"];
        Deferred.files := {[ "b" := File (bytes "hello") ]} |}).
Proof.
  eapply (proj2 (commit_partial_failure posix
            {| Deferred.pending := [Op_remove "a"; Op_remove "c"; Op_remove "b"];
               Deferred.files := fs_twins |}) [Op_remove "a"]);
    reflexivity.
Defined.

(** C4 as stated fails: after a commit that succeeds, and after one that
    fails half way, the queue still holds every operation. *)
Lemma commit_keeps_queue :
  Deferred.commit posix
    {| Deferred.pending := [Op_remove "a"]; Deferred.files := fs_twins |}
  = (Ok tt, {| Deferred.pending := [Op_remove "a"];
               Deferred.files := {[ "b" := File (bytes "hello") ]} |}) ∧
  Deferred.pending
    (Deferred.commit posix
       {| Deferred.pending := [Op_remove "a"; Op_remove "c"; Op_remove "b"];
          Deferred.files := fs_twins |}).2
  = [Op_remove "a"; Op_remove "c"; Op_remove "b"].
Proof. by_computation. Qed.

(** C9. [remove] always succeeds, touches no file and puts the removal
    at the end of the queue; a target that is missing makes the removal
    fail when it is applied, and so makes [commit] fail. *)
Theorem remove_checked_at_commit E target s :
  Deferred.remove target s
  = (Ok tt, {| Deferred.pending := Deferred.pending s ++ [Op_remove target];
               Deferred.files := Deferred.files s |}) ∧
  (Deferred.files s !! target = None →
   ∃ e, Deferred._remove E target (Deferred.files s)
        = (Raise (EnvironmentError e target), Deferred.files s) ∧
        (Deferred.pending s = [] →
         (Deferred.remove target;; Deferred.commit E) s
         = (Raise (EnvironmentError e target),
            {| Deferred.pending := [Op_remove target];
               Deferred.files := Deferred.files s |}))).
Proof.
  split; [done|]. intros Hmiss.
  assert (∃ e, Deferred._remove E target (Deferred.files s)
               = (Raise (EnvironmentError e target), Deferred.files s))
    as [e He].
  { unfold Deferred._remove, os_path_isfile, os_stat, os_rmdir. munfold.
    rewrite Hmiss.
    destruct (fault E (SysStat target)), (fault E (SysRmdir target));
      simpl; rewrite ?Hmiss; eauto. }
  exists e. split; [done|]. intros Hq.
  unfold Deferred.remove, Deferred.pending_append. munfold.
  rewrite commit_unfold. simpl. rewrite Hq. simpl. munfold. by rewrite He.
Qed.

Lemma remove_checked_at_commit_witness :
  ∃ e, Deferred._remove posix "c" fs_twins
       = (Raise (EnvironmentError e "c"), fs_twins).
Proof.
  destruct (proj2 (remove_checked_at_commit posix "c" (Deferred.init fs_twins)))
    as (e & He & _); [reflexivity|].
  exists e. exact He.
Defined.

(** Up to [commit] and [abort] the calls only look at the files. *)
Lemma do_call_files E c s :
  Deferred.files (do_call E c s).2 = Deferred.files s.
Proof.
  destruct c as [source target|source target|target]; simpl; [| |done].
  - unfold Deferred.move, Deferred.on_files, Deferred.remove,
      Deferred.pending_append. munfold.
    pose proof (files_differ_pure E source target (Deferred.files s)) as Hp.
    destruct (files_differ E source target _) as [[[]|e] m']; by simpl in *.
  - unfold Deferred.copy, Deferred.on_files, Deferred.pending_append. munfold.
    pose proof (files_differ_pure E source target (Deferred.files s)) as Hp.
    destruct (files_differ E source target _) as [[[]|e] m']; by simpl in *.
Qed.

Lemma do_calls_files E cs s :
  Deferred.files (do_calls E cs s) = Deferred.files s.
Proof.
  revert s. induction cs as [|c cs IH]; intros s; simpl; [done|].
  by rewrite IH, do_call_files.
Qed.

(** C10. Whatever was asked of the transaction, [abort] returns, empties
    the queue, and the file system is the one the transaction started
    with. *)
Theorem abort_discards_queue E cs m :
  Deferred.abort (do_calls E cs (Deferred.init m)) = (Ok tt, Deferred.init m).
Proof.
  unfold Deferred.abort. munfold. by rewrite do_calls_files.
Qed.

(** X8. A move of a file onto a file with the same bytes: the fallback
    transaction queues the removal of the source, and the commit removes
    the source and nothing else. *)
Lemma deferred_move_identical E a b m d :
  readable_file E m a d → readable_file E m b d →
  fault E (SysUnlink a) = false →
  (Deferred.move E a b;; Deferred.commit E) (Deferred.init m)
  = (Ok tt, {| Deferred.pending := [Op_remove a];
               Deferred.files := delete a m |}).
Proof.
  intros Ha Hb Hu.
  assert (files_differ E a b m = (Ok false, m)) as Hd.
  { rewrite (files_differ_readable _ _ _ _ d d) by done.
    by rewrite bool_decide_eq_true_2. }
  destruct Ha as (Hma & Hsa & _).
  unfold Deferred.move, Deferred.on_files, Deferred.remove,
    Deferred.pending_append, Deferred.init. munfold. rewrite Hd. simpl.
  rewrite commit_unfold. simpl.
  unfold Deferred._remove, os_path_isfile, os_stat, os_unlink. munfold.
  rewrite Hsa, Hma. simpl. by rewrite Hu, Hma.
Qed.

(** Moving a file onto itself is such a move too, and removes it. *)
Lemma deferred_move_onto_itself :
  (Deferred.move posix "a" "a";; Deferred.commit posix) (Deferred.init fs_twins)
  = (Ok tt, {| Deferred.pending := [Op_remove "a"];
               Deferred.files := {[ "b" := File (bytes "hello") ]} |}).
Proof. by_computation. Qed.

(** ** The transaction on the Windows transaction manager *)

Lemma native_on_files_differ E source target s :
  Native.on_files (files_differ E source target) s
  = ((files_differ E source target (Native.files s)).1, s).
Proof.
  unfold Native.on_files.
  pose proof (files_differ_pure E source target (Native.files s)) as Hp.
  destruct (files_differ E source target _) as [r m']. simpl in *. subst m'.
  by destruct s.
Qed.


(** C8. When [move] or [copy] gets to its transacted calls, every path
    it hands over, the destination of the rename or copy included, is
    the encoded source or the encoded source followed by [.old]; the
    target only decides, through [os.path.exists], how many calls are
    made. *)
Theorem native_apply_uses_source_only E source target s :
  (files_differ E source target (Native.files s)).1 = Ok true →
  Native.move E source target s
  = (Ok tt,
     {| Native.trace :=
          Native.trace s ++
          (if os_path_exists E target (Native.files s)
           then [ MoveFileTransacted (fsencode E source)
                                     (fsencode E source +:+ ".old");
                  MoveFileTransacted (fsencode E source) (fsencode E source);
                  DeleteFileTransacted (fsencode E source +:+ ".old") ]
           else [ MoveFileTransacted (fsencode E source) (fsencode E source) ]);
        Native.files := Native.files s |}) ∧
  Native.copy E source target s
  = (Ok tt,
     {| Native.trace :=
          Native.trace s ++
          (if os_path_exists E target (Native.files s)
           then [ MoveFileTransacted (fsencode E source)
                                     (fsencode E source +:+ ".old");
                  CopyFileTransacted (fsencode E source) (fsencode E source);
                  DeleteFileTransacted (fsencode E source +:+ ".old") ]
           else [ CopyFileTransacted (fsencode E source) (fsencode E source) ]);
        Native.files := Native.files s |}).
Proof.
  intros Hd.
  unfold Native.move, Native.copy, mbind, M_bind, bind.
  rewrite native_on_files_differ, Hd. simpl.
  unfold Native.ktm. munfold.
  destruct (os_path_exists E target (Native.files s)); simpl;
    repeat rewrite <- app_assoc; done.
Qed.

Lemma native_apply_uses_source_only_witness :
  Native.trace (Native.move win32 "s" "t" (Native.init fs_src_tgt)).2
  = [ MoveFileTransacted "s" "s.old"; MoveFileTransacted "s" "s";
      DeleteFileTransacted "s.old" ] ∧
  Native.trace (Native.copy win32 "s" "u" (Native.init fs_src_tgt)).2
  = [ CopyFileTransacted "s" "s" ].
Proof.
  split.
  - rewrite (proj1 (native_apply_uses_source_only win32 "s" "t"
                      (Native.init fs_src_tgt) eq_refl)).
    reflexivity.
  - rewrite (proj2 (native_apply_uses_source_only win32 "s" "u"
                      (Native.init fs_src_tgt) eq_refl)).
    reflexivity.
Defined.

(** When source and target hold the same bytes, [move] calls [remove],
    which raises; nothing is removed, and no transacted call is made. *)
Lemma native_move_identical E source target s :
  (files_differ E source target (Native.files s)).1 = Ok false →
  Native.move E source target s = (Raise (NameError "source"), s).
Proof.
  intros Hd. unfold Native.move, mbind, M_bind, bind.
  by rewrite native_on_files_differ, Hd.
Qed.

(** C3 at a failing input: "a" and "b" both hold "hello"; the move of
    "a" onto "b" raises [NameError] and asks the transaction manager for
    nothing, so "a" is not removed. *)
Theorem native_move_identical_raises :
  files_differ win32 "a" "b" fs_twins = (Ok false, fs_twins) ∧
  Native.move win32 "a" "b" (Native.init fs_twins)
  = (Raise (NameError "source"), Native.init fs_twins).
Proof. by_computation. Qed.

(** * Further properties *)

(** ** The comparator *)

Lemma files_differ_verdict_swap E file1 file2 m v :
  (files_differ E file1 file2 m).1 = Ok v →
  (files_differ E file2 file1 m).1 = Ok v.
Proof.
  rewrite !files_differ_unfold.
  destruct (fault E (SysStat file1)) eqn:Hs1;
    destruct (fault E (SysStat file2)) eqn:Hs2;
    destruct (m !! file1) as [n1|] eqn:Hm1;
    destruct (m !! file2) as [n2|] eqn:Hm2; simpl; try done.
  rewrite (Nat.eqb_sym (st_size (stat_of n2))).
  destruct (st_size (stat_of n1) =? st_size (stat_of n2)); simpl; [|done].
  destruct (fault E (SysOpen file1)), (fault E (SysOpen file2)),
    n1 as [d1|], n2 as [d2|]; simpl; try done.
  rewrite !read_and_compare_eval.
  destruct (fault E (SysRead file1)), (fault E (SysRead file2)); simpl;
    try done.
  intros [= <-]. do 2 f_equal. apply bool_decide_ext. naive_solver.
Qed.

(** X1. The verdict of [files_differ] does not depend on the order of
    its two arguments. *)
Theorem files_differ_symmetric E file1 file2 m v :
  (files_differ E file1 file2 m).1 = Ok v ↔
  (files_differ E file2 file1 m).1 = Ok v.
Proof. split; apply files_differ_verdict_swap. Qed.



(** ** Applying one operation *)

(** X3. A [_move] that fails leaves the file system exactly as it was,
    on every platform, as long as no fault hits the rename that puts the
    backup back. *)
Theorem _move_fails_unchanged E source target m e :
  fault E (SysRename (target +:+ ".old") target) = false →
  (Deferred._move E source target m).1 = Raise e →
  (Deferred._move E source target m).2 = m.
Proof.
  intros Hf. rewrite _move_unfold.
  destruct (is_win32 E && os_path_exists E target m) eqn:Hc.
  - apply andb_true_iff in Hc as [Hw _].
    destruct (os_rename E target _ m) as [[[]|e0] m1] eqn:Hbak.
    + destruct (backup_rename_ok _ _ _ _ Hw Hbak) as (n & Hn & Hold & ->).
      unfold try_except_reraise_else.
      destruct (os_rename E source target _) as [[[]|e1] m2] eqn:Hap.
      * by rewrite unlink_best_effort.
      * apply os_rename_raise in Hap as ->. munfold.
        by rewrite (restore_rename_ok E target m n).
    + simpl. intros _. by apply os_rename_raise in Hbak.
  - destruct (os_rename E source target m) as [[[]|e0] m1] eqn:Hap; [done|].
    simpl. intros _. by apply os_rename_raise in Hap.
Qed.

Lemma _move_fails_unchanged_witness :
  (Deferred._move win32 "s" "t" fs_tgt).2 = fs_tgt.
Proof.
  apply (_move_fails_unchanged win32 "s" "t" fs_tgt
           (EnvironmentError ENOENT "s")); reflexivity.
Defined.



(** X5. A [_copy] that succeeds onto a target that is no directory
    leaves the source as it was and the target with the bytes of the
    source. *)
Theorem _copy_keeps_source E source target m m' :
  is_Some (m !! source) → os_path_isdir E target m = false →
  Deferred._copy E source target m = (Ok tt, m') →
  ∃ d, m !! source = Some (File d) ∧ m' !! source = Some (File d) ∧
       m' !! target = Some (File d).
Proof.
  intros [n Hs] Hdir. pose proof (path_old_ne target) as Hne.
  rewrite _copy_unfold.
  destruct (is_win32 E && os_path_exists E target m) eqn:Hc.
  - apply andb_true_iff in Hc as [Hw _].
    destruct (os_rename E target _ m) as [[[]|e] m1] eqn:Hbak; [|done].
    destruct (backup_rename_ok _ _ _ _ Hw Hbak) as (n0 & Hn0 & Hold & ->).
    assert (source ≠ target +:+ ".old") as Hne' by congruence.
    intros (m2 & Hap & Hclean)%reraise_else_ok.
    rewrite unlink_best_effort in Hclean.
    apply shutil_copy2_ok_inv in Hap as (d & Hd & ->).
    + destruct (decide (source = target)) as [->|Hst]; simplify_map_eq.
      exists d. destruct (fault E (SysUnlink (target +:+ ".old")));
        simplify_map_eq; [done|].
      destruct n0; simplify_map_eq; done.
    + unfold os_path_isdir, os_stat. simplify_map_eq.
      by destruct (fault E (SysStat target)).
  - intros (d & Hd & ->)%shutil_copy2_ok_inv; [|done].
    exists d. destruct (decide (source = target)) as [->|Hst];
      by simplify_map_eq.
Qed.

Lemma _copy_keeps_source_witness :
  ∃ d, fs_src_tgt !! "s" = Some (File d) ∧
       (Deferred._copy win32 "s" "t" fs_src_tgt).2 !! "s" = Some (File d) ∧
       (Deferred._copy win32 "s" "t" fs_src_tgt).2 !! "t" = Some (File d).
Proof.
  apply (_copy_keeps_source win32 "s" "t" fs_src_tgt); [by eexists|done|].
  reflexivity.
Defined.

(** X6. [_remove] is all or nothing: either it returns and exactly the
    target, which existed, is gone, or it raises and the file system is
    as it was. *)
Theorem _remove_all_or_nothing E target m :
  (Deferred._remove E target m = (Ok tt, delete target m) ∧
   is_Some (m !! target)) ∨
  (∃ e, Deferred._remove E target m = (Raise e, m)).
Proof.
  unfold Deferred._remove, os_path_isfile, os_stat, os_unlink, os_rmdir.
  munfold.
  destruct (fault E (SysStat target)), (m !! target) as [[d|sz]|] eqn:Hm;
    simpl; rewrite ?Hm;
    destruct (fault E (SysUnlink target)), (fault E (SysRmdir target));
    simpl; eauto.
Qed.

(** X7. The backup name can stand in for a source that does not exist:
    on win32, moving or copying [target.old], which is missing, onto an
    existing regular file [target] returns without an error and leaves
    the file system as it was. *)
Theorem backup_name_as_source_win32 E target m d :
  is_win32 E = true → fault_free E →
  m !! target = Some (File d) → m !! (target +:+ ".old") = None →
  Deferred._move E (target +:+ ".old") target m = (Ok tt, m) ∧
  Deferred._copy E (target +:+ ".old") target m = (Ok tt, m).
Proof.
  intros Hw Hff Ht Hold. pose proof (path_old_ne target) as Hne.
  assert (os_path_exists E target m = true) as Hex.
  { unfold os_path_exists, os_stat. by rewrite Hff, Ht. }
  assert (os_rename E target (target +:+ ".old") m
          = (Ok tt, <[target +:+ ".old" := File d]> (delete target m))) as Hbak.
  { unfold os_rename. rewrite Hff, Ht, decide_False, Hold by done. done. }
  split.
  - rewrite _move_unfold, Hw, Hex, Hbak. simpl.
    unfold try_except_reraise_else.
    rewrite (restore_rename_ok E target m (File d)) by done.
    rewrite unlink_best_effort, Hff. by rewrite Hold.
  - rewrite _copy_unfold, Hw, Hex, Hbak. simpl.
    unfold try_except_reraise_else, shutil_copy2, shutil_copyfile,
      os_path_isdir, os_path_exists, os_stat.
    rewrite !Hff. simplify_map_eq. rewrite bool_decide_eq_false_2 by done.
    simpl. rewrite unlink_best_effort, Hff. simplify_map_eq.
    f_equal. apply map_eq. intros i.
    destruct (decide (i = target +:+ ".old")) as [->|Hi];
      [by simplify_map_eq|].
    destruct (decide (i = target)) as [->|Hi']; by simplify_map_eq.
Qed.

Lemma backup_name_as_source_win32_witness :
  Deferred._move win32 "t.old" "t" fs_tgt = (Ok tt, fs_tgt) ∧
  Deferred._copy win32 "t.old" "t" fs_tgt = (Ok tt, fs_tgt).
Proof.
  apply (backup_name_as_source_win32 win32 "t" fs_tgt (bytes "old"));
    [reflexivity | intros c; reflexivity | reflexivity | reflexivity].
Defined.

(** ** Enqueue, commit, abort *)

Lemma deferred_move_identical_witness :
  (Deferred.move posix "a" "b";; Deferred.commit posix) (Deferred.init fs_twins)
  = (Ok tt, {| Deferred.pending := [Op_remove "a"];
               Deferred.files := delete "a" fs_twins |}).
Proof.
  apply (deferred_move_identical posix "a" "b" fs_twins (bytes "hello"));
    repeat split; reflexivity.
Defined.

Ltac run_os Hff :=
  repeat first
    [ rewrite Hff
    | rewrite decide_False by done
    | rewrite bool_decide_eq_false_2 by done
    | rewrite unlink_best_effort
    | progress simplify_map_eq/= ].

Lemma readable_fault_free E m p d :
  fault_free E → m !! p = Some (File d) → readable_file E m p d.
Proof. intros Hff Hm. by repeat split. Qed.

(** X9. A copy between two files that hold the same bytes queues
    nothing: the commit that follows changes no file. *)
Theorem deferred_copy_identical_noop E a b m d :
  readable_file E m a d → readable_file E m b d →
  (Deferred.copy E a b;; Deferred.commit E) (Deferred.init m)
  = (Ok tt, Deferred.init m).
Proof.
  intros Ha Hb.
  unfold Deferred.copy, Deferred.on_files, Deferred.init. munfold.
  rewrite (files_differ_readable _ _ _ _ d d) by done.
  rewrite bool_decide_eq_true_2 by done. simpl. by rewrite commit_unfold.
Qed.

Lemma deferred_copy_identical_noop_witness :
  (Deferred.copy posix "a" "b";; Deferred.commit posix) (Deferred.init fs_twins)
  = (Ok tt, Deferred.init fs_twins).
Proof.
  apply (deferred_copy_identical_noop posix "a" "b" fs_twins (bytes "hello"));
    repeat split; reflexivity.
Defined.

(** X10. Without faults, a move between two files that hold different
    bytes, committed: the target holds the bytes of the source, the
    source is gone, no backup is left and every other path is as it was.
    On win32 the backup name must be free. *)
Theorem deferred_move_commit_replaces E a b m da db :
  fault_free E →
  m !! a = Some (File da) → m !! b = Some (File db) → da ≠ db →
  (is_win32 E = true → m !! (b +:+ ".old") = None) →
  (Deferred.move E a b;; Deferred.commit E) (Deferred.init m)
  = (Ok tt, {| Deferred.pending := [Op_move a b];
               Deferred.files := <[b := File da]> (delete a m) |}).
Proof.
  intros Hff Ha Hb Hd Hold. pose proof (path_old_ne b) as Hne.
  assert (a ≠ b) as Hab by congruence.
  unfold Deferred.move, Deferred.on_files, Deferred.pending_append,
    Deferred.init. munfold.
  rewrite (files_differ_readable _ _ _ _ da db)
    by by apply readable_fault_free.
  rewrite bool_decide_eq_false_2 by done. simpl.
  rewrite commit_unfold. simpl. munfold. rewrite _move_unfold.
  assert (os_path_exists E b m = true) as ->.
  { unfold os_path_exists, os_stat. by rewrite Hff, Hb. }
  destruct (is_win32 E) eqn:Hw; simpl.
  - specialize (Hold eq_refl). assert (a ≠ b +:+ ".old") by congruence.
    unfold try_except_reraise_else, os_rename. run_os Hff.
    do 2 f_equal. apply map_eq. intros i.
    destruct (decide (i = b +:+ ".old")) as [->|Hi]; [by simplify_map_eq|].
    destruct (decide (i = b)) as [->|Hi']; [by simplify_map_eq|].
    destruct (decide (i = a)) as [->|Hi'']; by simplify_map_eq.
  - unfold os_rename. run_os Hff. by rewrite Hw.
Qed.

Lemma deferred_move_commit_replaces_witness :
  (Deferred.move win32 "s" "t";; Deferred.commit win32) (Deferred.init fs_src_tgt)
  = (Ok tt, {| Deferred.pending := [Op_move "s" "t"];
               Deferred.files := <["t" := File (bytes "new")]>
                                   (delete "s" fs_src_tgt) |}).
Proof.
  apply (deferred_move_commit_replaces win32 "s" "t" fs_src_tgt
           (bytes "new") (bytes "old"));
    [intros c; reflexivity | reflexivity | reflexivity | discriminate
    | intros _; reflexivity].
Defined.

(** X11. Without faults, a copy between two files that hold different
    bytes, committed: the target holds the bytes of the source and every
    other path, the source included, is as it was. On win32 the backup
    name must be free. *)
Theorem deferred_copy_commit_replaces E a b m da db :
  fault_free E →
  m !! a = Some (File da) → m !! b = Some (File db) → da ≠ db →
  (is_win32 E = true → m !! (b +:+ ".old") = None) →
  (Deferred.copy E a b;; Deferred.commit E) (Deferred.init m)
  = (Ok tt, {| Deferred.pending := [Op_copy a b];
               Deferred.files := <[b := File da]> m |}).
Proof.
  intros Hff Ha Hb Hd Hold. pose proof (path_old_ne b) as Hne.
  assert (a ≠ b) as Hab by congruence.
  unfold Deferred.copy, Deferred.on_files, Deferred.pending_append,
    Deferred.init. munfold.
  rewrite (files_differ_readable _ _ _ _ da db)
    by by apply readable_fault_free.
  rewrite bool_decide_eq_false_2 by done. simpl.
  rewrite commit_unfold. simpl. munfold. rewrite _copy_unfold.
  assert (os_path_exists E b m = true) as ->.
  { unfold os_path_exists, os_stat. by rewrite Hff, Hb. }
  destruct (is_win32 E) eqn:Hw; simpl.
  - specialize (Hold eq_refl). assert (a ≠ b +:+ ".old") by congruence.
    unfold try_except_reraise_else, os_rename, shutil_copy2, shutil_copyfile,
      os_path_isdir, os_path_exists, os_stat.
    run_os Hff. do 2 f_equal. apply map_eq. intros i.
    destruct (decide (i = b +:+ ".old")) as [->|Hi]; [by simplify_map_eq|].
    destruct (decide (i = b)) as [->|Hi']; by simplify_map_eq.
  - unfold shutil_copy2, shutil_copyfile, os_path_isdir, os_path_exists,
      os_stat.
    by run_os Hff.
Qed.

Lemma deferred_copy_commit_replaces_witness :
  (Deferred.copy win32 "s" "t";; Deferred.commit win32) (Deferred.init fs_src_tgt)
  = (Ok tt, {| Deferred.pending := [Op_copy "s" "t"];
               Deferred.files := <["t" := File (bytes "new")]> fs_src_tgt |}).
Proof.
  apply (deferred_copy_commit_replaces win32 "s" "t" fs_src_tgt
           (bytes "new") (bytes "old"));
    [intros c; reflexivity | reflexivity | reflexivity | discriminate
    | intros _; reflexivity].
Defined.

(** ** What a commit leaves alone *)









(** ** The queue *)

Lemma do_call_pending E c s :
  Deferred.pending (do_call E c s).2 = Deferred.pending s ∨
  ∃ o, Deferred.pending (do_call E c s).2 = Deferred.pending s ++ [o].
Proof.
  destruct c as [source target|source target|target]; simpl.
  - unfold Deferred.move, Deferred.on_files, Deferred.remove,
      Deferred.pending_append. munfold.
    destruct (files_differ E source target _) as [[[]|e] m']; simpl; eauto.
  - unfold Deferred.copy, Deferred.on_files, Deferred.pending_append. munfold.
    destruct (files_differ E source target _) as [[[]|e] m']; simpl; eauto.
  - eauto.
Qed.

(** X13. The calls made before a commit never drop or reorder what is
    queued: the old queue is a prefix of the new one, and each call adds
    at most one entry. *)
Theorem enqueue_extends_queue E cs s :
  Deferred.pending s `prefix_of` Deferred.pending (do_calls E cs s) ∧
  length (Deferred.pending (do_calls E cs s))
  ≤ length (Deferred.pending s) + length cs.
Proof.
  revert s. induction cs as [|c cs IH]; intros s; simpl.
  - split; [done|lia].
  - destruct (IH (do_call E c s).2) as [Hpre Hlen].
    destruct (do_call_pending E c s) as [Heq|[o Heq]]; rewrite Heq in *.
    + split; [done|lia].
    + split; [by eapply prefix_app_l|].
      rewrite length_app in Hlen. simpl in Hlen. lia.
Qed.

(** X14. After the calls made on a transaction, [abort] followed by
    [commit] returns and leaves the file system the transaction started
    with. *)
Theorem abort_then_commit_noop E cs m :
  (Deferred.abort;; Deferred.commit E) (do_calls E cs (Deferred.init m))
  = (Ok tt, Deferred.init m).
Proof.
  unfold Deferred.abort. munfold. rewrite commit_unfold. simpl.
  by rewrite do_calls_files.
Qed.

Lemma _remove_missing E target m :
  m !! target = None →
  ∃ e, Deferred._remove E target m = (Raise (EnvironmentError e target), m).
Proof.
  intros Hm.
  unfold Deferred._remove, os_path_isfile, os_stat, os_rmdir. munfold.
  rewrite Hm.
  destruct (fault E (SysStat target)), (fault E (SysRmdir target));
    simpl; rewrite ?Hm; eauto.
Qed.

Lemma _remove_outcome E target m :
  Deferred._remove E target m = (Ok tt, delete target m) ∨
  ∃ e, Deferred._remove E target m = (Raise e, m).
Proof.
  unfold Deferred._remove, os_path_isfile, os_stat, os_unlink, os_rmdir.
  munfold.
  destruct (fault E (SysStat target)), (m !! target) as [[d|sz]|] eqn:Hm;
    simpl; rewrite ?Hm;
    destruct (fault E (SysUnlink target)), (fault E (SysRmdir target));
    simpl; eauto.
Qed.

(** X15. [commit] does not empty the queue, so it cannot be repeated
    once a removal is queued: of two commits after [remove], one raises,
    whatever the target and the faults. *)
Theorem commit_twice_after_remove_raises E target m :
  ∃ e s,
    (Deferred.remove target;; Deferred.commit E;; Deferred.commit E)
      (Deferred.init m)
    = (Raise e, s).
Proof.
  unfold Deferred.remove, Deferred.pending_append, Deferred.init. munfold.
  rewrite commit_unfold. simpl. munfold.
  destruct (_remove_outcome E target m) as [Hok|[e He]].
  - rewrite Hok. simpl. rewrite commit_unfold. simpl. munfold.
    destruct (_remove_missing E target (delete target m)) as [e He];
      [apply lookup_delete_eq|].
    rewrite He. simpl. eauto.
  - rewrite He. simpl. eauto.
Qed.

(** X16. An error of [files_differ] reaches the caller of [move] and
    [copy] at once, in both classes, and the call leaves no trace: the
    queue, the calls issued on the transaction and the files are as they
    were. *)
Theorem enqueue_error_propagates E source target e :
  (∀ s, (files_differ E source target (Deferred.files s)).1 = Raise e →
        Deferred.move E source target s = (Raise e, s) ∧
        Deferred.copy E source target s = (Raise e, s)) ∧
  (∀ s, (files_differ E source target (Native.files s)).1 = Raise e →
        Native.move E source target s = (Raise e, s) ∧
        Native.copy E source target s = (Raise e, s)).
Proof.
  split; intros s Hd.
  - unfold Deferred.move, Deferred.copy, Deferred.on_files. munfold.
    pose proof (files_differ_pure E source target (Deferred.files s)) as Hp.
    destruct (files_differ E source target _) as [r m']. simpl in *.
    subst. by destruct s.
  - unfold Native.move, Native.copy, mbind, M_bind, bind.
    by rewrite native_on_files_differ, Hd.
Qed.

Lemma enqueue_error_propagates_witness :
  Deferred.move (failing posix (SysOpen "b")) "a" "b" (Deferred.init fs_twins)
  = (Raise (EnvironmentError EACCES "b"), Deferred.init fs_twins) ∧
  Native.copy (failing win32 (SysOpen "b")) "a" "b" (Native.init fs_twins)
  = (Raise (EnvironmentError EACCES "b"), Native.init fs_twins).
Proof.
  split.
  - apply (proj1 (enqueue_error_propagates (failing posix (SysOpen "b"))
                    "a" "b" (EnvironmentError EACCES "b"))
             (Deferred.init fs_twins)).
    reflexivity.
  - apply (proj2 (enqueue_error_propagates (failing win32 (SysOpen "b"))
                    "a" "b" (EnvironmentError EACCES "b"))
             (Native.init fs_twins)).
    reflexivity.
Defined.

(** ** The transaction on the Windows transaction manager *)

(** X17. The native [copy] between two files that hold the same bytes
    returns without asking anything of the transaction manager. *)
Theorem native_copy_identical_noop E a b s d :
  readable_file E (Native.files s) a d → readable_file E (Native.files s) b d →
  Native.copy E a b s = (Ok tt, s).
Proof.
  intros Ha Hb. unfold Native.copy, mbind, M_bind, bind.
  rewrite native_on_files_differ, (files_differ_readable _ _ _ _ d d) by done.
  by rewrite bool_decide_eq_true_2.
Qed.

Lemma native_copy_identical_noop_witness :
  Native.copy win32 "a" "b" (Native.init fs_twins)
  = (Ok tt, Native.init fs_twins).
Proof.
  apply (native_copy_identical_noop win32 "a" "b" (Native.init fs_twins)
           (bytes "hello")); repeat split; reflexivity.
Defined.

Lemma do_native_call_grows E c s :
  Native.files (do_native_call E c s).2 = Native.files s ∧
  Native.trace s `prefix_of` Native.trace (do_native_call E c s).2.
Proof.
  destruct c as [source target|source target|target| |]; simpl.
  - unfold Native.move, mbind, M_bind, bind.
    rewrite native_on_files_differ.
    destruct (files_differ E source target _).1 as [[]|e]; simpl; [| |done].
    + unfold Native.ktm. munfold.
      destruct (os_path_exists E target (Native.files s)); simpl;
        (split; [done|]); repeat rewrite <- app_assoc; by apply prefix_app_r.
    + done.
  - unfold Native.copy, mbind, M_bind, bind.
    rewrite native_on_files_differ.
    destruct (files_differ E source target _).1 as [[]|e]; simpl; [| |done].
    + unfold Native.ktm. munfold.
      destruct (os_path_exists E target (Native.files s)); simpl;
        (split; [done|]); repeat rewrite <- app_assoc; by apply prefix_app_r.
    + done.
  - done.
  - split; [done|]. by apply prefix_app_r.
  - split; [done|]. by apply prefix_app_r.
Qed.

(** X18. Whatever is asked of the native transaction, the files that
    calls outside the transaction see are never changed by the methods
    themselves, and the record of transacted calls only grows. *)
Theorem native_calls_only_extend_trace E cs s :
  Native.files (do_native_calls E cs s) = Native.files s ∧
  Native.trace s `prefix_of` Native.trace (do_native_calls E cs s).
Proof.
  revert s. induction cs as [|c cs IH]; intros s; simpl; [done|].
  destruct (IH (do_native_call E c s).2) as [Hf Ht].
  destruct (do_native_call_grows E c s) as [Hf' Ht'].
  split; [congruence|]. by etrans.
Qed.

Lemma os_rename_missing E src dst m :
  m !! src = None →
  ∃ en, os_rename E src dst m = (Raise (EnvironmentError en src), m).
Proof.
  intros Hm. unfold os_rename. rewrite Hm.
  destruct (fault E (SysRename src dst)); eauto.
Qed.

Lemma _move_missing_source E source target m :
  m !! source = None → source ≠ target +:+ ".old" →
  fault E (SysRename (target +:+ ".old") target) = false →
  ∃ en p, Deferred._move E source target m
          = (Raise (EnvironmentError en p), m).
Proof.
  intros Hs Hne Hf. rewrite _move_unfold.
  destruct (is_win32 E && os_path_exists E target m) eqn:Hc.
  - apply andb_true_iff in Hc as [Hw _].
    destruct (os_rename E target _ m) as [[[]|e0] m1] eqn:Hbak.
    + destruct (backup_rename_ok _ _ _ _ Hw Hbak) as (n & Hn & Hold & ->).
      destruct (os_rename_missing E source target
                  (<[target +:+ ".old" := n]> (delete target m)))
        as [en Hap].
      { rewrite lookup_insert_ne by done. apply lookup_delete_None. by right. }
      unfold try_except_reraise_else. rewrite Hap. munfold.
      rewrite (restore_rename_ok E target m n) by done. eauto.
    + pose proof (os_rename_raise _ _ _ _ _ _ Hbak) as ->.
      unfold os_rename in Hbak. break_matches; eauto.
  - destruct (os_rename_missing E source target m Hs) as [en ->]. eauto.
Qed.

(** X19. Order matters and nothing is undone: when [remove(x)] is
    queued before [move(x, y)], the commit removes [x], then fails on
    the move, whose source is gone, and [x] stays removed. *)
Theorem remove_then_move_fails_at_commit E x y m d :
  fault_free E → m !! x = Some (File d) → x ≠ y +:+ ".old" →
  (files_differ E x y m).1 = Ok true →
  ∃ en p,
    (Deferred.remove x;; Deferred.move E x y;; Deferred.commit E)
      (Deferred.init m)
    = (Raise (EnvironmentError en p),
       {| Deferred.pending := [Op_remove x; Op_move x y];
          Deferred.files := delete x m |}).
Proof.
  intros Hff Hx Hne Hd.
  unfold Deferred.remove, Deferred.move, Deferred.on_files,
    Deferred.pending_append, Deferred.init. munfold.
  pose proof (files_differ_pure E x y m) as Hp.
  destruct (files_differ E x y m) as [r m']. simpl in *. subst r m'.
  simpl. rewrite commit_unfold. simpl. munfold.
  assert (Deferred._remove E x m = (Ok tt, delete x m)) as ->.
  { unfold Deferred._remove, os_path_isfile, os_stat, os_unlink. munfold.
    rewrite Hff, Hx. simpl. by rewrite Hff, Hx. }
  destruct (_move_missing_source E x y (delete x m)) as (en & p & ->);
    [apply lookup_delete_eq | done | apply Hff |].
  simpl. eauto.
Qed.

Lemma remove_then_move_fails_at_commit_witness :
  ∃ en p,
    (Deferred.remove "s";; Deferred.move win32 "s" "t";; Deferred.commit win32)
      (Deferred.init fs_src_tgt)
    = (Raise (EnvironmentError en p),
       {| Deferred.pending := [Op_remove "s"; Op_move "s" "t"];
          Deferred.files := delete "s" fs_src_tgt |}).
Proof.
  apply (remove_then_move_fails_at_commit win32 "s" "t" fs_src_tgt (bytes "new"));
    [intros c; reflexivity | reflexivity | discriminate | reflexivity].
Defined.
